(** * Running large problems on D-Wave QPUs using QBSolv

    A shallow embedding of the notebook
    [examples/quantum_annealing/Running_large_problems_using_QBSolv.ipynb]:
    the QUBO dictionary built from the edges of a random graph, the
    arithmetic that fixes the size of that graph, and the sequence of calls
    the notebook makes into networkx, minorminer, the Braket plugin and
    QBSolv. *)

From Stdlib Require Import ZArith List Permutation PrimFloat FloatOps SpecFloat Uint63.
From stdpp Require Import gmap list fin_maps strings.

Local Open Scope Z_scope.

(** ** The QUBO dictionary

    [QUBO = defaultdict(int)]: a Python dictionary whose keys are the tuples
    [(u, v)] of node labels and whose values are Python integers.  Tuples
    are ordered, integers unbounded. *)

Abbreviation key := (Z * Z)%type (only parsing).
Abbreviation defaultdict_int := (gmap (Z * Z) Z) (only parsing).

Module defaultdict.

(** [int()], the default factory. *)
Definition default_factory : Z := 0.

(** [d[k]]: a missing key is first stored with the factory's value
    ([__missing__]), then read. *)
Definition getitem (d : defaultdict_int) (k : key) : Z * defaultdict_int :=
  match d !! k with
  | Some x => (x, d)
  | None => (default_factory, <[k := default_factory]> d)
  end.

(** [d[k] = x]. *)
Definition setitem (d : defaultdict_int) (k : key) (x : Z) : defaultdict_int :=
  <[k := x]> d.

(** [d[k] += c], that is [d[k] = d[k] + c]. *)
Definition iadd (d : defaultdict_int) (k : key) (c : Z) : defaultdict_int :=
  let '(x, d') := getitem d k in setitem d' k (x + c).

(** [k in d]. *)
Definition contains (d : defaultdict_int) (k : key) : bool :=
  bool_decide (is_Some (d !! k)).

(** [d.get(k, 0)]: the coefficient of [k], read without storing
    anything. *)
Definition get (d : defaultdict_int) (k : key) : Z :=
  match d !! k with
  | Some x => x
  | None => default_factory
  end.

(** [sum(d.values())]. *)
Definition sum_values (d : defaultdict_int) : Z :=
  map_fold (fun _ x acc => x + acc) 0 d.

End defaultdict.

(** The body of [for u, v in Graph.edges:]. *)
Definition QUBO_update (QUBO : defaultdict_int) (e : key) : defaultdict_int :=
  let '(u, v) := e in
  let QUBO := defaultdict.iadd QUBO (u, u) (-1) in
  let QUBO := defaultdict.iadd QUBO (v, v) (-3) in
  let QUBO := defaultdict.iadd QUBO (u, v) 2 in
  QUBO.

(** [QUBO = defaultdict(int)] followed by the loop over the edges, in the
    order in which [Graph.edges] yields them. *)
Definition QUBO_loop (Graph_edges : list key) : defaultdict_int :=
  foldl QUBO_update ∅ Graph_edges.

(** The dictionary after the first [k] iterations of the loop. *)
Definition QUBO_after (k : nat) (Graph_edges : list key) : defaultdict_int :=
  QUBO_loop (take k Graph_edges).

(** ** The table as the specification words it

    "For each edge (u, v), apply the three fixed increments
    diagonal(u) -= 1, diagonal(v) -= 3, off-diagonal(u,v) += 2", read on a
    table that has a value, initially zero, at every pair. *)

(** What one edge adds to the entry at [k]. *)
Definition spec_increment (e k : key) : Z :=
  (if decide (k = (e.1, e.1)) then -1 else 0)
  + (if decide (k = (e.2, e.2)) then -3 else 0)
  + (if decide (k = e) then 2 else 0).

Definition spec_table (Graph_edges : list key) (k : key) : Z :=
  foldl (fun acc e => acc + spec_increment e k) 0 Graph_edges.

(** The number of edges whose first component is [u]. *)
Definition first_count (u : Z) (Graph_edges : list key) : Z :=
  Z.of_nat (length (filter (fun e => e.1 = u) Graph_edges)).

(** The number of edges whose second component is [u]. *)
Definition second_count (u : Z) (Graph_edges : list key) : Z :=
  Z.of_nat (length (filter (fun e => e.2 = u) Graph_edges)).

(** The number of occurrences of the edge [e], in this orientation. *)
Definition occurrences (e : key) (Graph_edges : list key) : Z :=
  Z.of_nat (length (filter (fun e' => e' = e) Graph_edges)).

(** Node [w] is an end of some edge. *)
Definition incident (w : Z) (Graph_edges : list key) : Prop :=
  exists e, e ∈ Graph_edges /\ (e.1 = w \/ e.2 = w).

(** No edge joins a node to itself, as in every graph that
    [gnm_random_graph] returns. *)
Definition no_self_loops (Graph_edges : list key) : Prop :=
  Forall (fun e => e.1 <> e.2) Graph_edges.

(** ** The size of the graph

    Python's [float] is IEEE 754 binary64, the kernel's primitive [float]. *)

Module pyfloat.

(** [float(n)]; exact for [|n| < 2^53]. *)
Definition of_int (n : Z) : float :=
  if n <? 0 then PrimFloat.opp (PrimFloat.of_uint63 (Uint63.of_Z (- n)))
  else PrimFloat.of_uint63 (Uint63.of_Z n).

(** [a / b] on two ints: the correctly rounded quotient, which for
    operands below [2^53] is the quotient of the two converted operands.
    ([b = 0] raises in Python; the notebook divides by the literal 2.) *)
Definition int_truediv (a b : Z) : float :=
  PrimFloat.div (of_int a) (of_int b).

(** The integer nearest to [m * 2^e], ties going to the even one. *)
Definition round_half_even (m e : Z) : Z :=
  if 0 <=? e then m * 2 ^ e
  else
    let d := 2 ^ (- e) in
    let q := m / d in
    let r := m mod d in
    if 2 * r <? d then q
    else if d <? 2 * r then q + 1
    else if Z.even q then q else q + 1.

(** [round(x)] with one argument: an int, halves rounded to even.
    Python raises on an infinity or a NaN; 0 stands in for that here. *)
Definition round (x : float) : Z :=
  match Prim2SF x with
  | S754_finite s m e =>
      let n := round_half_even (Z.pos m) e in
      if s then - n else n
  | _ => 0
  end.

(** Neither an infinity nor a NaN. *)
Definition is_finite (x : float) : bool :=
  match Prim2SF x with
  | S754_finite _ _ _ | S754_zero _ => true
  | _ => false
  end.

(** The literal [0.4]: the binary64 number nearest to 4/10. *)
Definition lit_0_4 : float := 0x1.999999999999ap-2%float.

End pyfloat.

(** [nodes = 240] *)
Definition nodes : Z := 240.

(** The argument of [round] in
    [edges = round(nodes * (nodes-1)/2 * 0.4)]: an int product, a true
    division by 2 and a float product, from left to right. *)
Definition edges_float : float :=
  PrimFloat.mul (pyfloat.int_truediv (nodes * (nodes - 1)) 2) pyfloat.lit_0_4.

(** [edges = round(nodes * (nodes-1)/2 * 0.4)] *)
Definition edges : Z := pyfloat.round edges_float.

(** [seed = 2] *)
Definition seed : Z := 2.

(** ** The notebook as a program over its external calls

    Everything but the loop and the arithmetic above happens in the
    libraries the notebook imports.  Their objects are opaque here, and so
    are the exceptions they raise and the state of the world they act on. *)

Record externals : Type := {
  nx_Graph : Type;                (* networkx.Graph *)
  BraketDWaveSampler_t : Type;    (* braket.ocean_plugin.BraketDWaveSampler *)
  embedding_t : Type;             (* what minorminer.find_embedding returns *)
  FixedEmbeddingComposite_t : Type;
  QBSolv_t : Type;
  SampleSet : Type;               (* what sample_qubo returns *)
  exn : Type;                     (* Python exceptions *)
  world : Type                    (* device, network, S3, random state *)
}.

Section Program.
Context {T : externals}.

(** The calls the notebook makes, indexed by what they return. *)
Inductive ext_call : Type -> Type :=
| nx_gnm_random_graph (n m seed : Z) : ext_call (nx_Graph T)
| nx_complete_graph (n : Z) : ext_call (nx_Graph T)
| Graph_edges (g : nx_Graph T) : ext_call (list key)
| BraketDWaveSampler (s3_folder : string * string) (arn : string) :
    ext_call (BraketDWaveSampler_t T)
| system_edgelist (system : BraketDWaveSampler_t T) : ext_call (list key)
| minorminer_find_embedding (source : list key) (target : list key) :
    ext_call (embedding_t T)
| FixedEmbeddingComposite (system : BraketDWaveSampler_t T)
    (embedding : embedding_t T) : ext_call (FixedEmbeddingComposite_t T)
| QBSolv : ext_call (QBSolv_t T)
| sample_qubo (self : QBSolv_t T) (Q : defaultdict_int)
    (solver : FixedEmbeddingComposite_t T)
    (num_repeats solver_limit num_reads : Z) : ext_call (SampleSet T)
| print (response : SampleSet T) : ext_call unit.

(** A call returns or raises. *)
Definition result (X : Type) : Type := (exn T + X)%type.

(** Statements: a call followed by the rest of the program, and Python's
    [try: body except e: handler] followed by the rest. *)
Inductive prog : Type -> Type :=
| Return {A} (a : A) : prog A
| Call {X A} (c : ext_call X) (k : X -> prog A) : prog A
| TryExcept {X A} (body : prog X) (handler : exn T -> prog X)
    (k : X -> prog A) : prog A.

(** The outside world: what each call answers in each state. *)
Definition environment : Type :=
  forall X, ext_call X -> world T -> result X * world T.

(** One entry of the call log: the call and its answer. *)
Inductive event : Type :=
| Event {X} (c : ext_call X) (r : result X).

(** The exception an event ended in, if any. *)
Definition raised (ev : event) : option (exn T) :=
  match ev with
  | Event _ (inl e) => Some e
  | Event _ (inr _) => None
  end.

(** Running a program: the calls made, in order, the final state of the
    world, and the value returned or the exception that escaped. *)
Fixpoint run {A} (env : environment) (p : prog A) (w : world T)
  : list event * world T * result A :=
  match p with
  | Return a => ([], w, inr a)
  | Call c k =>
      let '(r, w1) := env _ c w in
      match r with
      | inl e => ([Event c r], w1, inl e)
      | inr x =>
          let '(log, w2, out) := run env (k x) w1 in
          (Event c r :: log, w2, out)
      end
  | TryExcept body handler k =>
      let '(log1, w1, r1) := run env body w in
      let '(log2, w2, r2) :=
        match r1 with
        | inl e => run env (handler e) w1
        | inr x => ([], w1, inr x)
        end in
      match r2 with
      | inl e => (log1 ++ log2, w2, inl e)
      | inr x =>
          let '(log3, w3, out) := run env (k x) w2 in
          (log1 ++ log2 ++ log3, w3, out)
      end
  end.

(** A program without any [try]. *)
Fixpoint handler_free {A} (p : prog A) : Prop :=
  match p with
  | Return _ => True
  | Call _ k => forall x, handler_free (k x)
  | TryExcept _ _ _ => False
  end.

(** Views of the log, one per kind of call the properties below are about. *)
Definition find_embedding_call (ev : event)
  : option (list key * list key * result (embedding_t T)) :=
  match ev with
  | Event c r =>
      match c in ext_call X return result X -> option _ with
      | minorminer_find_embedding source target =>
          fun r => Some (source, target, r)
      | _ => fun _ => None
      end r
  end.

Definition complete_graph_call (ev : event)
  : option (Z * result (nx_Graph T)) :=
  match ev with
  | Event c r =>
      match c in ext_call X return result X -> option _ with
      | nx_complete_graph n => fun r => Some (n, r)
      | _ => fun _ => None
      end r
  end.

Definition gnm_random_graph_call (ev : event)
  : option (Z * Z * Z * result (nx_Graph T)) :=
  match ev with
  | Event c r =>
      match c in ext_call X return result X -> option _ with
      | nx_gnm_random_graph n m s => fun r => Some (n, m, s, r)
      | _ => fun _ => None
      end r
  end.

Definition Graph_edges_call (ev : event)
  : option (nx_Graph T * result (list key)) :=
  match ev with
  | Event c r =>
      match c in ext_call X return result X -> option _ with
      | Graph_edges g => fun r => Some (g, r)
      | _ => fun _ => None
      end r
  end.

Definition FixedEmbeddingComposite_call (ev : event)
  : option (BraketDWaveSampler_t T * embedding_t T
            * result (FixedEmbeddingComposite_t T)) :=
  match ev with
  | Event c r =>
      match c in ext_call X return result X -> option _ with
      | FixedEmbeddingComposite s e => fun r => Some (s, e, r)
      | _ => fun _ => None
      end r
  end.

(** The keyword arguments [num_repeats], [solver_limit], [num_reads] of a
    [sample_qubo] call. *)
Definition sample_qubo_call (ev : event) : option (Z * Z * Z) :=
  match ev with
  | Event (sample_qubo _ _ _ num_repeats solver_limit num_reads) _ =>
      Some (num_repeats, solver_limit, num_reads)
  | Event _ _ => None
  end.

(** The positional argument [Q] and the keyword argument [solver] of a
    [sample_qubo] call. *)
Definition sample_qubo_problem (ev : event)
  : option (defaultdict_int * FixedEmbeddingComposite_t T) :=
  match ev with
  | Event (sample_qubo _ Q solver _ _ _) _ => Some (Q, solver)
  | Event _ _ => None
  end.

End Program.

Arguments ext_call : clear implicits.
Arguments prog : clear implicits.
Arguments event : clear implicits.
Arguments environment : clear implicits.
Arguments result : clear implicits.

Notation "'call' x := c 'in' k" := (Call c (fun x => k))
  (at level 10, x name, c at level 100, k at level 200, only parsing).

(** ** The cells of the notebook *)

(** Cell 2. *)
Definition my_bucket : string := "amazon-braket-Your-Bucket-Name".
Definition my_prefix : string := "Your-Folder-Name".
Definition s3_folder : string * string := (my_bucket, my_prefix).

(** Cell 4: [solver_limit = 40]. *)
Definition solver_limit : Z := 40.

Definition Advantage_system1 : string :=
  "arn:aws:braket:::device/qpu/d-wave/Advantage_system1".

(** Cell 5: [num_repeats = 2], [num_reads = 100]. *)
Definition num_repeats : Z := 2.
Definition num_reads : Z := 100.

(** Cells 3 to 5, statement by statement. *)
Definition notebook {T : externals} : prog T unit :=
  (* cell 3 *)
  call Graph := nx_gnm_random_graph nodes edges seed in
  call Graph_edges_ := Graph_edges Graph in
  let QUBO := QUBO_loop Graph_edges_ in
  (* cell 4 *)
  call system := BraketDWaveSampler s3_folder Advantage_system1 in
  (* cell 5 *)
  call G := nx_complete_graph solver_limit in
  call G_edges := Graph_edges G in
  call edgelist := system_edgelist system in
  call embedding := minorminer_find_embedding G_edges edgelist in
  call solver := FixedEmbeddingComposite system embedding in
  call qbsolv := QBSolv in
  call response := sample_qubo qbsolv QUBO solver num_repeats solver_limit num_reads in
  call _ := print response in
  Return tt.

(** The calls the notebook makes in a given world, and how it ends. *)
Definition notebook_log {T : externals} (env : environment T) (w : world T)
  : list (event T) :=
  (run env notebook w).1.1.

Definition notebook_outcome {T : externals} (env : environment T) (w : world T)
  : result T unit :=
  (run env notebook w).2.

(** ** A small world to run the notebook in

    Graphs are their edge lists, every other object is trivial, exceptions
    are messages, and the state of the world counts the calls made so far.
    The call numbered [fail_at], if any, raises. *)
Module Demo.

Definition T : externals :=
  {| nx_Graph := list (Z * Z);
     BraketDWaveSampler_t := unit;
     embedding_t := unit;
     FixedEmbeddingComposite_t := unit;
     QBSolv_t := unit;
     SampleSet := unit;
     exn := string;
     world := nat |}.

Definition answer {X} (c : ext_call T X) : X :=
  match c in ext_call _ X return X with
  | nx_gnm_random_graph _ _ _ => [(0, 1); (1, 2); (0, 2)]
  | nx_complete_graph _ => [(0, 1)]
  | Graph_edges g => g
  | BraketDWaveSampler _ _ => tt
  | system_edgelist _ => [(0, 4); (1, 4)]
  | minorminer_find_embedding _ _ => tt
  | FixedEmbeddingComposite _ _ => tt
  | QBSolv => tt
  | sample_qubo _ _ _ _ _ _ => tt
  | print _ => tt
  end.

Definition env (fail_at : option nat) : environment T :=
  fun X c w =>
    (if decide (fail_at = Some w) then inl "device unavailable"%string
     else inr (answer c),
     S w).

(** For contrast, a call wrapped in [try: ... except: pass]. *)
Definition guarded : prog T unit :=
  TryExcept (call _ := QBSolv in Return tt) (fun _ => Return tt) Return.

End Demo.

(** ** Further definitions *)

(** The right-hand side of [edges = round(nodes * (nodes-1)/2 * 0.4)] as a
    function of [nodes]. *)
Definition edges_float_of (nodes : Z) : float :=
  PrimFloat.mul (pyfloat.int_truediv (nodes * (nodes - 1)) 2) pyfloat.lit_0_4.

Definition edges_of (nodes : Z) : Z := pyfloat.round (edges_float_of nodes).

(** The node counts 0, 1, ..., [n - 1]. *)
Definition node_counts (n : nat) : list Z := Z.of_nat <$> seq 0 n.

(** For one node count: the float product is finite, [edges] is the
    integer quotient of [nodes * (nodes-1)] by 5, and the remainder of that
    division is at most 2. *)
Definition edges_exact (nodes : Z) : bool :=
  pyfloat.is_finite (edges_float_of nodes)
  && (edges_of nodes =? nodes * (nodes - 1) / 5)
  && ((nodes * (nodes - 1)) mod 5 <=? 2).

(** The number of edges with [u] at either end, an edge from [u] to [u]
    counted twice. *)
Definition degree (u : Z) (Graph_edges : list key) : Z :=
  first_count u Graph_edges + second_count u Graph_edges.

(** The keys one iteration of the loop writes. *)
Definition written (e : key) : list key := [(e.1, e.1); (e.2, e.2); e].

Section Views.
Context {T : externals}.

(** The name under which the notebook makes a call. *)
Definition call_name {X} (c : ext_call T X) : string :=
  match c with
  | nx_gnm_random_graph _ _ _ => "nx.gnm_random_graph"
  | nx_complete_graph _ => "nx.complete_graph"
  | Graph_edges _ => "Graph.edges"
  | BraketDWaveSampler _ _ => "BraketDWaveSampler"
  | system_edgelist _ => "system.edgelist"
  | minorminer_find_embedding _ _ => "minorminer.find_embedding"
  | FixedEmbeddingComposite _ _ => "FixedEmbeddingComposite"
  | QBSolv => "QBSolv"
  | sample_qubo _ _ _ _ _ _ => "sample_qubo"
  | print _ => "print"
  end.

Definition event_name (ev : event T) : string :=
  match ev with
  | Event c _ => call_name c
  end.

Definition BraketDWaveSampler_call (ev : event T)
  : option (string * string * string * result T (BraketDWaveSampler_t T)) :=
  match ev with
  | Event c r =>
      match c in ext_call _ X return result T X -> option _ with
      | BraketDWaveSampler s3 arn => fun r => Some (s3.1, s3.2, arn, r)
      | _ => fun _ => None
      end r
  end.

Definition system_edgelist_call (ev : event T)
  : option (BraketDWaveSampler_t T * result T (list key)) :=
  match ev with
  | Event c r =>
      match c in ext_call _ X return result T X -> option _ with
      | system_edgelist system => fun r => Some (system, r)
      | _ => fun _ => None
      end r
  end.

(** What a [sample_qubo] call answered. *)
Definition sample_qubo_response (ev : event T)
  : option (result T (SampleSet T)) :=
  match ev with
  | Event c r =>
      match c in ext_call _ X return result T X -> option _ with
      | sample_qubo _ _ _ _ _ _ => fun r => Some r
      | _ => fun _ => None
      end r
  end.

(** The argument of a [print] call. *)
Definition print_call (ev : event T) : option (SampleSet T) :=
  match ev with
  | Event (print response) _ => Some response
  | Event _ _ => None
  end.

End Views.

(** The calls of the notebook, in the order of its statements. *)
Definition notebook_calls : list string :=
  ["nx.gnm_random_graph"; "Graph.edges"; "BraketDWaveSampler";
   "nx.complete_graph"; "Graph.edges"; "system.edgelist";
   "minorminer.find_embedding"; "FixedEmbeddingComposite"; "QBSolv";
   "sample_qubo"; "print"]%string.

(** * Properties *)

(** Case analysis on every decision in the goal. *)
Ltac decide_all :=
  repeat match goal with
         | |- context [decide ?P] => destruct (decide P)
         end.

(** ** One augmented assignment *)

Section Iadd.
Implicit Types (d : gmap (Z * Z) Z) (k : Z * Z) (c : Z).

Lemma iadd_insert d k c :
  defaultdict.iadd d k c = <[k := defaultdict.get d k + c]> d.
Proof.
  unfold defaultdict.iadd, defaultdict.getitem, defaultdict.setitem,
    defaultdict.get.
  destruct (d !! k) as [x|] eqn:Hk; [done|].
  by rewrite insert_insert_eq.
Qed.

Lemma lookup_iadd d k c k' :
  defaultdict.iadd d k c !! k'
  = if decide (k = k') then Some (defaultdict.get d k + c) else d !! k'.
Proof. rewrite iadd_insert. apply lookup_insert. Qed.

Lemma get_iadd d k c k' :
  defaultdict.get (defaultdict.iadd d k c) k'
  = defaultdict.get d k' + (if decide (k = k') then c else 0).
Proof.
  unfold defaultdict.get at 1. rewrite lookup_iadd.
  case_decide; subst; [done|]. unfold defaultdict.get. lia.
Qed.

Lemma is_Some_iadd d k c k' :
  is_Some (defaultdict.iadd d k c !! k') <-> k = k' \/ is_Some (d !! k').
Proof.
  rewrite lookup_iadd. case_decide; subst.
  - split; [by left | by eauto].
  - split; [by right | by intros [?|?]].
Qed.

(** Two augmented assignments commute, whichever keys they write. *)
Lemma iadd_comm d k1 c1 k2 c2 :
  defaultdict.iadd (defaultdict.iadd d k1 c1) k2 c2
  = defaultdict.iadd (defaultdict.iadd d k2 c2) k1 c1.
Proof.
  apply map_eq; intros k'. rewrite !lookup_iadd, !get_iadd.
  decide_all; subst; try done; f_equal; lia.
Qed.

Lemma sum_values_insert_fresh d k x :
  d !! k = None ->
  defaultdict.sum_values (<[k := x]> d) = x + defaultdict.sum_values d.
Proof.
  intros Hk. unfold defaultdict.sum_values.
  rewrite map_fold_insert_L; [done| |done].
  intros; lia.
Qed.

Lemma sum_values_iadd d k c :
  defaultdict.sum_values (defaultdict.iadd d k c)
  = defaultdict.sum_values d + c.
Proof.
  rewrite iadd_insert. unfold defaultdict.get.
  destruct (d !! k) as [x|] eqn:Hk.
  - rewrite <- (insert_delete_id d k x) at 2 by done.
    rewrite <- insert_delete_eq.
    rewrite !sum_values_insert_fresh by apply lookup_delete_eq. lia.
  - rewrite sum_values_insert_fresh by done.
    unfold defaultdict.default_factory. lia.
Qed.

End Iadd.

(** ** The loop *)

Lemma QUBO_loop_snoc (es : list (Z * Z)) (e : Z * Z) :
  QUBO_loop (es ++ [e]) = QUBO_update (QUBO_loop es) e.
Proof. unfold QUBO_loop. by rewrite foldl_snoc. Qed.

Lemma get_QUBO_update (d : gmap (Z * Z) Z) (e k : Z * Z) :
  defaultdict.get (QUBO_update d e) k = defaultdict.get d k + spec_increment e k.
Proof.
  destruct e as [u v]. unfold QUBO_update, spec_increment. simpl.
  rewrite !get_iadd.
  decide_all; simplify_eq; lia.
Qed.

Lemma is_Some_QUBO_update (d : gmap (Z * Z) Z) (e k : Z * Z) :
  is_Some (QUBO_update d e !! k)
  <-> k = (e.1, e.1) \/ k = (e.2, e.2) \/ k = e \/ is_Some (d !! k).
Proof.
  destruct e as [u v]. unfold QUBO_update. simpl.
  rewrite !is_Some_iadd. intuition (subst; auto).
Qed.

Lemma sum_values_QUBO_update (d : gmap (Z * Z) Z) (e : Z * Z) :
  defaultdict.sum_values (QUBO_update d e) = defaultdict.sum_values d - 2.
Proof.
  destruct e as [u v]. unfold QUBO_update.
  rewrite !sum_values_iadd. lia.
Qed.

Lemma QUBO_update_comm (d : gmap (Z * Z) Z) (e1 e2 : Z * Z) :
  QUBO_update (QUBO_update d e1) e2 = QUBO_update (QUBO_update d e2) e1.
Proof.
  apply map_eq; intros k.
  assert (Hget : forall d1 d2 : gmap (Z * Z) Z,
             is_Some (d1 !! k) <-> is_Some (d2 !! k) ->
             defaultdict.get d1 k = defaultdict.get d2 k ->
             d1 !! k = d2 !! k).
  { intros d1 d2 Hs Hg. unfold defaultdict.get in Hg.
    destruct (d1 !! k) as [x|] eqn:H1, (d2 !! k) as [y|] eqn:H2;
      [by subst | | | done].
    - destruct Hs as [Hs _]. destruct Hs as [? ?]; [by eauto | done].
    - destruct Hs as [_ Hs]. destruct Hs as [? ?]; [by eauto | done]. }
  apply Hget.
  - rewrite !is_Some_QUBO_update. tauto.
  - rewrite !get_QUBO_update. lia.
Qed.

Lemma foldl_QUBO_update_Permutation (es es' : list (Z * Z)) :
  Permutation es es' ->
  forall d : gmap (Z * Z) Z, foldl QUBO_update d es = foldl QUBO_update d es'.
Proof.
  induction 1 as [|e es es' _ IH|e1 e2 es|es1 es2 es3 _ IH1 _ IH2];
    intros d; simpl.
  - done.
  - apply IH.
  - by rewrite QUBO_update_comm.
  - by rewrite IH1.
Qed.

Lemma get_QUBO_loop (es : list (Z * Z)) (k : Z * Z) :
  defaultdict.get (QUBO_loop es) k = spec_table es k.
Proof.
  induction es as [|e es IH] using rev_ind.
  - done.
  - rewrite QUBO_loop_snoc, get_QUBO_update, IH.
    unfold spec_table. by rewrite foldl_snoc.
Qed.

Lemma first_count_snoc u es e :
  first_count u (es ++ [e]) = first_count u es + (if decide (e.1 = u) then 1 else 0).
Proof.
  unfold first_count. rewrite filter_app, length_app, Nat2Z.inj_add.
  f_equal. rewrite filter_cons, filter_nil. by case_decide.
Qed.

Lemma second_count_snoc u es e :
  second_count u (es ++ [e]) = second_count u es + (if decide (e.2 = u) then 1 else 0).
Proof.
  unfold second_count. rewrite filter_app, length_app, Nat2Z.inj_add.
  f_equal. rewrite filter_cons, filter_nil. by case_decide.
Qed.

Lemma occurrences_snoc e0 es e :
  occurrences e0 (es ++ [e]) = occurrences e0 es + (if decide (e = e0) then 1 else 0).
Proof.
  unfold occurrences. rewrite filter_app, length_app, Nat2Z.inj_add.
  f_equal. rewrite filter_cons, filter_nil. by case_decide.
Qed.

(** The closed form of the table, at every pair. *)
Lemma spec_table_counts (es : list (Z * Z)) (a b : Z) :
  spec_table es (a, b)
  = (if decide (a = b) then - first_count a es - 3 * second_count a es else 0)
    + 2 * occurrences (a, b) es.
Proof.
  induction es as [|[u v] es IH] using rev_ind.
  - by case_decide.
  - unfold spec_table in *. rewrite foldl_snoc, IH.
    rewrite first_count_snoc, second_count_snoc, occurrences_snoc.
    unfold spec_increment. simpl.
    decide_all; simplify_eq; lia.
Qed.

Lemma occurrences_self_loop (es : list (Z * Z)) (u : Z) :
  no_self_loops es -> occurrences (u, u) es = 0.
Proof.
  unfold no_self_loops, occurrences. induction 1 as [|[a b] es Hab _ IH].
  - done.
  - rewrite filter_cons. simpl in Hab.
    destruct (decide ((a, b) = (u, u))); [by simplify_eq | apply IH].
Qed.

Lemma is_Some_QUBO_loop (es : list (Z * Z)) (k : Z * Z) :
  is_Some (QUBO_loop es !! k)
  <-> exists e, e ∈ es /\ (k = (e.1, e.1) \/ k = (e.2, e.2) \/ k = e).
Proof.
  induction es as [|e es IH] using rev_ind.
  - unfold QUBO_loop. simpl. rewrite lookup_empty. split.
    + by intros [? ?].
    + intros (e & He & _). by apply elem_of_nil in He.
  - rewrite QUBO_loop_snoc, is_Some_QUBO_update, IH. split.
    + intros [H|[H|[H|(e' & He' & H)]]].
      * exists e. split; [apply elem_of_app; right; by left | tauto].
      * exists e. split; [apply elem_of_app; right; by left | tauto].
      * exists e. split; [apply elem_of_app; right; by left | tauto].
      * exists e'. split; [apply elem_of_app; by left | done].
    + intros (e' & He' & H). apply elem_of_app in He' as [He'|He'].
      * right; right; right. by exists e'.
      * apply list_elem_of_singleton in He'. subst e'. tauto.
Qed.

Lemma sum_values_QUBO_loop (es : list (Z * Z)) :
  defaultdict.sum_values (QUBO_loop es) = -2 * Z.of_nat (length es).
Proof.
  induction es as [|e es IH] using rev_ind.
  - done.
  - rewrite QUBO_loop_snoc, sum_values_QUBO_update, IH, length_app. simpl. lia.
Qed.

(** ** The coefficient table (C1, C2, C4, C5, C10) *)

(** A self-loop, which no simple graph has, is the one edge whose three
    increments land on a single entry: for the edge (0, 0) the entry at
    (0, 0) ends at -1 - 3 + 2 = -2, not at the -1 - 3 = -4 of one first
    component and one second component. *)
Remark QUBO_loop_self_loop_example :
  defaultdict.get (QUBO_loop [(0, 0)]) (0, 0) = -2
  /\ - first_count 0 [(0, 0)] - 3 * second_count 0 [(0, 0)] = -4
  /\ defaultdict.get (QUBO_loop [(0, 0)]) (0, 0)
     <> - first_count 0 [(0, 0)] - 3 * second_count 0 [(0, 0)].
Proof. by vm_compute. Qed.

(** C1.  For every edge list the loop, started from the empty dictionary,
    ends with the table of the three increments per edge: its entry at
    every pair is the sum the specification describes, and its keys are the
    pairs (u, u), (v, v) and (u, v) of the edges (u, v).  The entry at
    (u, v), u <> v, is twice the number of occurrences of the edge (u, v).
    On the edge lists the loop is run on, those of a graph without
    self-loops, the entry at (u, u) is minus the number of edges with first
    component u, minus three times the number of edges with second
    component u.  (On any edge list it is that number plus twice the number
    of occurrences of the self-loop (u, u).) *)
Theorem QUBO_loop_table (Graph_edges : list (Z * Z)) :
  (forall k, defaultdict.get (QUBO_loop Graph_edges) k = spec_table Graph_edges k)
  /\ (forall k, is_Some (QUBO_loop Graph_edges !! k)
        <-> exists e, e ∈ Graph_edges
                      /\ (k = (e.1, e.1) \/ k = (e.2, e.2) \/ k = e))
  /\ (forall u v, u <> v ->
        defaultdict.get (QUBO_loop Graph_edges) (u, v)
        = 2 * occurrences (u, v) Graph_edges)
  /\ (forall u,
        defaultdict.get (QUBO_loop Graph_edges) (u, u)
        = - first_count u Graph_edges - 3 * second_count u Graph_edges
          + 2 * occurrences (u, u) Graph_edges)
  /\ (no_self_loops Graph_edges -> forall u,
        defaultdict.get (QUBO_loop Graph_edges) (u, u)
        = - first_count u Graph_edges - 3 * second_count u Graph_edges).
Proof.
  split; [apply get_QUBO_loop|].
  split; [apply is_Some_QUBO_loop|].
  split; [|split].
  - intros u v Huv. rewrite get_QUBO_loop, spec_table_counts.
    by destruct (decide (u = v)).
  - intros u. rewrite get_QUBO_loop, spec_table_counts.
    by destruct (decide (u = u)).
  - intros Hloops u. rewrite get_QUBO_loop, spec_table_counts.
    rewrite occurrences_self_loop by done.
    destruct (decide (u = u)); [lia | done].
Qed.

Lemma QUBO_loop_table_witness :
  defaultdict.get (QUBO_loop [(0, 1); (1, 2); (0, 2)]) (0, 2)
  = 2 * occurrences (0, 2) [(0, 1); (1, 2); (0, 2)]
  /\ defaultdict.get (QUBO_loop [(0, 1); (1, 2); (0, 2)]) (1, 1)
     = - first_count 1 [(0, 1); (1, 2); (0, 2)]
       - 3 * second_count 1 [(0, 1); (1, 2); (0, 2)].
Proof.
  destruct (QUBO_loop_table [(0, 1); (1, 2); (0, 2)]) as (_ & _ & Hoff & _ & Hdiag).
  split.
  - apply Hoff. lia.
  - apply Hdiag. repeat constructor; simpl; lia.
Defined.

(** C2, as the claim words it, fails: after the single edge (0, 1) the
    entry at (0, 1) is 2, and the tuple (1, 0) is another key, which the
    loop never wrote. *)
Lemma QUBO_key_order_counterexample :
  defaultdict.get (QUBO_loop [(0, 1)]) (0, 1) = 2
  /\ defaultdict.get (QUBO_loop [(0, 1)]) (1, 0) = 0
  /\ QUBO_loop [(0, 1)] !! (1, 0) = None
  /\ defaultdict.get (QUBO_loop [(0, 1)]) (1, 0)
     <> defaultdict.get (QUBO_loop [(0, 1)]) (0, 1).
Proof. by vm_compute. Qed.

(** C2 (amended).  The table is keyed by ordered pairs: for two distinct
    nodes u and v the tuples (u, v) and (v, u) are different keys; the
    entry at (v, u) equals the entry at (u, v) exactly when the edge list
    holds the edge as often in one orientation as in the other, and the
    key (v, u) is absent when the edge list never holds (v, u). *)
Theorem QUBO_keys_are_ordered_pairs (Graph_edges : list (Z * Z)) (u v : Z) :
  u <> v ->
  (u, v) <> (v, u)
  /\ (defaultdict.get (QUBO_loop Graph_edges) (v, u)
      = defaultdict.get (QUBO_loop Graph_edges) (u, v)
      <-> occurrences (v, u) Graph_edges = occurrences (u, v) Graph_edges)
  /\ ((v, u) ∉ Graph_edges -> QUBO_loop Graph_edges !! (v, u) = None).
Proof.
  intros Huv. split; [congruence|]. split.
  - rewrite !get_QUBO_loop, !spec_table_counts.
    destruct (decide (v = u)), (decide (u = v)); try done. lia.
  - intros Hnot. apply eq_None_not_Some. rewrite is_Some_QUBO_loop.
    intros ([a b] & He & [H|[H|H]]); simpl in H; simplify_eq; done.
Qed.

Lemma QUBO_keys_are_ordered_pairs_witness :
  (0, 1) <> (1, 0)
  /\ (defaultdict.get (QUBO_loop [(0, 1); (1, 2)]) (1, 0)
      = defaultdict.get (QUBO_loop [(0, 1); (1, 2)]) (0, 1)
      <-> occurrences (1, 0) [(0, 1); (1, 2)] = occurrences (0, 1) [(0, 1); (1, 2)])
  /\ ((1, 0) ∉ [(0, 1); (1, 2)] -> QUBO_loop [(0, 1); (1, 2)] !! (1, 0) = None).
Proof. apply (QUBO_keys_are_ordered_pairs [(0, 1); (1, 2)] 0 1). lia. Defined.

(** C4.  The final table does not depend on the order of the edge list:
    two edge lists that are permutations of each other give the same
    dictionary (the same keys with the same values, Python's [==]). *)
Theorem QUBO_loop_Permutation (es es' : list (Z * Z)) :
  Permutation es es' -> QUBO_loop es = QUBO_loop es'.
Proof. intros Hp. by apply foldl_QUBO_update_Permutation. Qed.

Lemma QUBO_loop_Permutation_witness :
  QUBO_loop [(0, 1); (1, 2); (0, 2)] = QUBO_loop [(1, 2); (0, 2); (0, 1)].
Proof.
  apply QUBO_loop_Permutation.
  apply (Permutation_cons_append [(1, 2); (0, 2)] (0, 1)).
Defined.

(** C5.  After k iterations of the loop the values in the table sum to
    -2 * k; after the whole edge list, to -2 times its length. *)
Theorem QUBO_sum_invariant (Graph_edges : list (Z * Z)) :
  (forall k : nat, (k <= length Graph_edges)%nat ->
     defaultdict.sum_values (QUBO_after k Graph_edges) = -2 * Z.of_nat k)
  /\ defaultdict.sum_values (QUBO_loop Graph_edges)
     = -2 * Z.of_nat (length Graph_edges).
Proof.
  split; [|apply sum_values_QUBO_loop].
  intros k Hk. unfold QUBO_after.
  rewrite sum_values_QUBO_loop, length_take. do 2 f_equal. lia.
Qed.

Lemma QUBO_sum_invariant_witness :
  defaultdict.sum_values (QUBO_after 2 [(0, 1); (1, 2); (0, 2)]) = -2 * 2.
Proof.
  apply (proj1 (QUBO_sum_invariant [(0, 1); (1, 2); (0, 2)]) 2%nat).
  simpl. lia.
Defined.

(** C10.  After the loop the key (w, w) is in the table exactly when node
    w is an end of at least one edge; the diagonal key of an isolated node
    is absent. *)
Theorem diagonal_key_iff_incident (Graph_edges : list (Z * Z)) (w : Z) :
  (is_Some (QUBO_loop Graph_edges !! (w, w)) <-> incident w Graph_edges)
  /\ (QUBO_loop Graph_edges !! (w, w) = None <-> ~ incident w Graph_edges)
  /\ (defaultdict.contains (QUBO_loop Graph_edges) (w, w) = true
      <-> incident w Graph_edges).
Proof.
  assert (Hiff : is_Some (QUBO_loop Graph_edges !! (w, w))
                 <-> incident w Graph_edges).
  { rewrite is_Some_QUBO_loop. unfold incident. split.
    - intros ([a b] & He & H). exists (a, b). split; [done|].
      simpl in *. destruct H as [H|[H|H]]; simplify_eq; auto.
    - intros ([a b] & He & H). exists (a, b). split; [done|].
      simpl in *. destruct H as [H|H]; subst; auto. }
  split; [done|]. split.
  - rewrite eq_None_not_Some. by rewrite Hiff.
  - unfold defaultdict.contains. by rewrite bool_decide_eq_true.
Qed.

(** ** The size of the graph (C3) *)

(** The literal 0.4 is the correctly rounded quotient of 4 by 10. *)
Lemma lit_0_4_nearest : pyfloat.lit_0_4 = pyfloat.int_truediv 4 10.
Proof. by vm_compute. Qed.

Lemma edges_float_value : edges_float = 11472%float.
Proof. by vm_compute. Qed.

(** [round] on halves and near them, as Python prints it:
    [round(2.5) == 2], [round(3.5) == 4], [round(-0.5) == 0],
    [round(-7.5) == -8], [round(0.75) == 1], [round(1e22) == 10**22]. *)
Example round_examples :
  pyfloat.round 2.5%float = 2
  /\ pyfloat.round 3.5%float = 4
  /\ pyfloat.round (-0.5)%float = 0
  /\ pyfloat.round (-7.5)%float = -8
  /\ pyfloat.round 0.75%float = 1
  /\ pyfloat.round 1e22%float = 10 ^ 22.
Proof. by vm_compute. Qed.

Lemma edges_value : edges = 11472.
Proof. by vm_compute. Qed.

(** ** Runs of the notebook *)

(** Case analysis on the answer to the next call of a run. *)
Ltac next_call env :=
  match goal with
  | |- context [env ?X ?c ?w] =>
      let e := fresh "e" in
      let x := fresh "x" in
      let w' := fresh "w" in
      destruct (env X c w) as [[e|x] w']; simpl
  end.

Ltac run_notebook env :=
  unfold notebook_log, notebook_outcome, notebook; simpl;
  repeat next_call env.

Section Runs.
Context {T : externals}.
Implicit Types (env : environment T) (w : world T).

(** In a program without [try], an exception raised by a call ends the
    run: the call is the last one of the log, and its exception is the
    outcome of the program. *)
Lemma handler_free_raise {A} (p : prog T A) env w i ev e :
  handler_free p ->
  (run env p w).1.1 !! i = Some ev ->
  raised ev = Some e ->
  (run env p w).2 = inl e /\ S i = length (run env p w).1.1.
Proof.
  revert w i.
  induction p as [A a|X A c k IH|X A body _ handler _ k _];
    intros w i Hfree Hi He; simpl in *.
  - done.
  - destruct (env X c w) as [[e'|x] w1]; simpl in *.
    + destruct i as [|i]; simpl in Hi; [|done].
      simplify_eq. simpl in He. by simplify_eq.
    + specialize (IH x w1).
      destruct (run env (k x) w1) as [[log w2] out] eqn:Hrun. simpl in *.
      destruct i as [|i]; simpl in Hi.
      * by simplify_eq.
      * destruct (IH i (Hfree x) Hi He) as [-> ->]. done.
  - done.
Qed.

(** Conversely, the only exceptions are those of the calls. *)
Lemma handler_free_outcome {A} (p : prog T A) env w e :
  handler_free p ->
  (run env p w).2 = inl e ->
  exists ev, last (run env p w).1.1 = Some ev /\ raised ev = Some e.
Proof.
  revert w.
  induction p as [A a|X A c k IH|X A body _ handler _ k _];
    intros w Hfree Hout; simpl in *.
  - done.
  - destruct (env X c w) as [[e'|x] w1] eqn:Hc; simpl in *.
    + simplify_eq. by eexists.
    + specialize (IH x w1 (Hfree x)).
      destruct (run env (k x) w1) as [[log w2] out] eqn:Hrun. simpl in *.
      destruct (IH Hout) as (ev & Hlast & Hev).
      exists ev. split; [|done].
      destruct log as [|ev' log]; [done|]. done.
  - done.
Qed.

Lemma notebook_handler_free : handler_free (@notebook T).
Proof. unfold notebook. simpl. done. Qed.

End Runs.

(** Membership in a list given by its elements. *)
Ltac in_list := apply list_elem_of_In; simpl; auto 20.

(** C3.  The node count is 240; the edge count is the rounding of the
    binary64 product 28680.0 * 0.4, which is the finite float 11472.0, so the edge
    count is the integer 11472, the exact value of 240 * 239 / 2 * 0.4.
    Whatever the world answers, the graph generator is only ever called
    with these two constants and the seed 2; that call is the first call
    of cells 3 to 5; and a notebook that runs to its end has generated
    exactly one graph, with these arguments. *)
Theorem graph_size_constants :
  nodes = 240
  /\ edges_float = 11472%float
  /\ pyfloat.is_finite edges_float = true
  /\ edges = 11472
  /\ 10 * edges = nodes * (nodes - 1) / 2 * 4
  /\ forall (T : externals) (env : environment T) (w : world T),
       Forall (fun '(n, m, s, _) => n = 240 /\ m = 11472 /\ s = 2)
         (omap gnm_random_graph_call (notebook_log env w))
       /\ (forall ev, head (notebook_log env w) = Some ev ->
            exists r, gnm_random_graph_call ev = Some (240, 11472, 2, r))
       /\ (forall x, notebook_outcome env w = inr x ->
            exists Graph,
              omap gnm_random_graph_call (notebook_log env w)
              = [(240, 11472, 2, inr Graph)]).
Proof.
  split; [done|]. split; [apply edges_float_value|].
  split; [by rewrite edges_float_value|].
  split; [apply edges_value|]. split; [by rewrite edges_value|].
  intros T env w. rewrite <- edges_value.
  run_notebook env; (split; [repeat constructor|]); split.
  all: try (intros ev [= <-]; by eexists).
  all: intros u Hout; try discriminate Hout; by eexists.
Qed.

Lemma graph_size_constants_witness :
  exists Graph,
    omap gnm_random_graph_call (notebook_log (Demo.env None) 0%nat)
    = [(240, 11472, 2, inr Graph)].
Proof.
  destruct graph_size_constants as (_ & _ & _ & _ & _ & Hruns).
  destruct (Hruns Demo.T (Demo.env None) 0%nat) as (_ & _ & Hend).
  apply (Hend tt). reflexivity.
Defined.

(** A [try] does swallow the exception of the call it wraps, so being
    free of handlers is a property of the notebook, not of every program. *)
Remark guarded_swallows :
  raised <$> (run (Demo.env (Some 0%nat)) Demo.guarded 0%nat).1.1
  = [Some "device unavailable"%string]
  /\ (run (Demo.env (Some 0%nat)) Demo.guarded 0%nat).2 = inr tt
  /\ ~ handler_free Demo.guarded.
Proof. split; [done|]. split; [done|]. simpl. tauto. Qed.

(** ** The embedding and the solver call (C7, C8) *)

(** C7.  In every run of the notebook the embedding search is called at
    most once, and exactly once when the notebook runs to its end.  Its
    first argument is the edge view of the graph returned by
    [complete_graph(solver_limit)], with [solver_limit = 40]; the embedding
    given to [FixedEmbeddingComposite] is the one that search returned, and
    the solver given to [sample_qubo] is that composite.  A notebook that
    runs to its end has made each of these calls exactly once:
    [complete_graph(40)], the search on the edges of its graph, the
    composite built on the embedding found, and [sample_qubo] on that
    composite.  (Calls the libraries make inside their own code are not
    calls of the notebook.) *)
Theorem embedding_computed_once {T : externals}
    (env : environment T) (w : world T) :
  solver_limit = 40
  /\ (length (omap find_embedding_call (notebook_log env w)) <= 1)%nat
  /\ (forall x, notebook_outcome env w = inr x ->
        length (omap find_embedding_call (notebook_log env w)) = 1%nat)
  /\ Forall (fun '(source, _, _) =>
        exists G, (solver_limit, inr G)
                    ∈ omap complete_graph_call (notebook_log env w)
                  /\ (G, inr source)
                    ∈ omap Graph_edges_call (notebook_log env w))
       (omap find_embedding_call (notebook_log env w))
  /\ Forall (fun '(_, embedding, _) =>
        exists source target,
          (source, target, inr embedding)
            ∈ omap find_embedding_call (notebook_log env w))
       (omap FixedEmbeddingComposite_call (notebook_log env w))
  /\ Forall (fun '(_, solver) =>
        exists system embedding,
          (system, embedding, inr solver)
            ∈ omap FixedEmbeddingComposite_call (notebook_log env w))
       (omap sample_qubo_problem (notebook_log env w))
  /\ (forall x, notebook_outcome env w = inr x ->
        exists G source target system embedding solver Q,
          omap complete_graph_call (notebook_log env w)
          = [(solver_limit, inr G)]
          /\ omap find_embedding_call (notebook_log env w)
             = [(source, target, inr embedding)]
          /\ (G, inr source) ∈ omap Graph_edges_call (notebook_log env w)
          /\ omap FixedEmbeddingComposite_call (notebook_log env w)
             = [(system, embedding, inr solver)]
          /\ omap sample_qubo_problem (notebook_log env w) = [(Q, solver)]).
Proof.
  split; [done|].
  run_notebook env;
    (split; [lia|]); (split; [by intros []|]);
    (split; [repeat constructor; eexists; split; in_list|]);
    (split; [repeat constructor; do 2 eexists; in_list|]);
    (split; [repeat constructor; do 2 eexists; in_list|]).
  all: intros u Hout; try discriminate Hout.
  do 7 eexists. split; [reflexivity|]. split; [reflexivity|].
  split; [in_list|]. split; reflexivity.
Qed.

Lemma embedding_computed_once_witness :
  length (omap find_embedding_call (notebook_log (Demo.env None) 0%nat)) = 1%nat
  /\ exists G source target system embedding solver Q,
       omap complete_graph_call (notebook_log (Demo.env None) 0%nat)
       = [(solver_limit, inr G)]
       /\ omap find_embedding_call (notebook_log (Demo.env None) 0%nat)
          = [(source, target, inr embedding)]
       /\ (G, inr source)
          ∈ omap Graph_edges_call (notebook_log (Demo.env None) 0%nat)
       /\ omap FixedEmbeddingComposite_call (notebook_log (Demo.env None) 0%nat)
          = [(system, embedding, inr solver)]
       /\ omap sample_qubo_problem (notebook_log (Demo.env None) 0%nat)
          = [(Q, solver)].
Proof.
  destruct (embedding_computed_once (Demo.env None) 0%nat)
    as (_ & _ & Honce & _ & _ & _ & Hend).
  split; [apply (Honce tt) | apply (Hend tt)]; reflexivity.
Defined.

(** C8.  The three keyword arguments of every [sample_qubo] call the
    notebook makes are the values of [num_repeats], [solver_limit] and
    [num_reads] set in the cells above, 2, 40 and 100; a notebook that runs
    to its end has made exactly one such call. *)
Theorem sample_qubo_parameters {T : externals}
    (env : environment T) (w : world T) :
  (num_repeats, solver_limit, num_reads) = (2, 40, 100)
  /\ Forall (fun p => p = (num_repeats, solver_limit, num_reads))
       (omap sample_qubo_call (notebook_log env w))
  /\ (forall x, notebook_outcome env w = inr x ->
        omap sample_qubo_call (notebook_log env w) = [(2, 40, 100)]).
Proof.
  split; [done|].
  run_notebook env; (split; [by repeat constructor | by intros []]).
Qed.

Lemma sample_qubo_parameters_witness :
  omap sample_qubo_call (notebook_log (Demo.env None) 0%nat) = [(2, 40, 100)].
Proof.
  apply (proj2 (proj2 (sample_qubo_parameters (Demo.env None) 0%nat)) tt).
  reflexivity.
Defined.

(** ** Exceptions (C9) *)

(** C9.  The notebook has no [try]; when one of its calls raises, that
    call is the last one it makes (nothing is retried, nothing else is
    tried) and the exception is the outcome of the notebook; and an
    exception that ends the notebook is the one its last call raised. *)
Theorem failures_propagate {T : externals}
    (env : environment T) (w : world T) :
  handler_free (@notebook T)
  /\ (forall (i : nat) (ev : event T) (e : exn T),
        notebook_log env w !! i = Some ev ->
        raised ev = Some e ->
        notebook_outcome env w = inl e
        /\ S i = length (notebook_log env w))
  /\ (forall e : exn T,
        notebook_outcome env w = inl e ->
        exists ev, last (notebook_log env w) = Some ev /\ raised ev = Some e).
Proof.
  split; [apply notebook_handler_free|]. split.
  - intros i ev e. apply handler_free_raise, notebook_handler_free.
  - intros e. apply handler_free_outcome, notebook_handler_free.
Qed.

Lemma failures_propagate_witness :
  notebook_outcome (Demo.env (Some 6%nat)) 0%nat = inl "device unavailable"%string
  /\ 7%nat = length (notebook_log (Demo.env (Some 6%nat)) 0%nat).
Proof.
  eapply (proj1 (proj2 (failures_propagate (Demo.env (Some 6%nat)) 0%nat)) 6%nat);
    reflexivity.
Defined.

(** * Further properties of the loop *)

Lemma lookup_QUBO_update_other (d : gmap (Z * Z) Z) (e k : Z * Z) :
  k ∉ written e -> QUBO_update d e !! k = d !! k.
Proof.
  destruct e as [u v]. unfold written, QUBO_update. simpl. intros Hk.
  rewrite !lookup_iadd.
  decide_all; subst; try done; exfalso; apply Hk; apply list_elem_of_In;
    simpl; auto.
Qed.

(** X1.  One iteration of the loop, on any table: the three keys of the
    edge are in the table afterwards, no key is lost, and every other key
    keeps its entry or stays absent. *)
Theorem QUBO_update_frame (d : gmap (Z * Z) Z) (e k : Z * Z) :
  (k ∈ written e -> is_Some (QUBO_update d e !! k))
  /\ (is_Some (d !! k) -> is_Some (QUBO_update d e !! k))
  /\ (k ∉ written e -> QUBO_update d e !! k = d !! k).
Proof.
  split; [|split].
  - intros Hk. apply is_Some_QUBO_update.
    apply list_elem_of_In in Hk. simpl in Hk.
    destruct Hk as [<-|[<-|[<-|[]]]]; auto.
  - intros Hk. apply is_Some_QUBO_update. tauto.
  - apply lookup_QUBO_update_other.
Qed.

Lemma QUBO_update_frame_witness :
  QUBO_update {[ (7, 8) := 5 ]} (0, 1) !! (7, 8) = ({[ (7, 8) := 5 ]} : gmap (Z * Z) Z) !! (7, 8).
Proof.
  apply (proj2 (proj2 (QUBO_update_frame {[ (7, 8) := 5 ]} (0, 1) (7, 8)))).
  intros H. apply list_elem_of_In in H. simpl in H.
  destruct H as [H|[H|[H|H]]]; try discriminate H. exact H.
Defined.

Lemma get_foldl_QUBO_update (d : gmap (Z * Z) Z) (es : list (Z * Z)) (k : Z * Z) :
  defaultdict.get (foldl QUBO_update d es) k = defaultdict.get d k + spec_table es k.
Proof.
  induction es as [|e es IH] using rev_ind.
  - unfold spec_table. simpl. lia.
  - rewrite foldl_snoc, get_QUBO_update, IH.
    unfold spec_table. rewrite foldl_snoc. lia.
Qed.

(** X2.  Running the loop on a table that already holds entries adds, at
    every pair, what the loop alone would have produced; so the table of
    two edge lists one after the other is the table of the first, carried
    on with the second, and its entries are the sums of the entries of the
    two tables. *)
Theorem QUBO_loop_resume (d : gmap (Z * Z) Z) (es1 es2 : list (Z * Z)) (k : Z * Z) :
  defaultdict.get (foldl QUBO_update d es2) k
  = defaultdict.get d k + defaultdict.get (QUBO_loop es2) k
  /\ QUBO_loop (es1 ++ es2) = foldl QUBO_update (QUBO_loop es1) es2
  /\ defaultdict.get (QUBO_loop (es1 ++ es2)) k
     = defaultdict.get (QUBO_loop es1) k + defaultdict.get (QUBO_loop es2) k.
Proof.
  assert (Happ : QUBO_loop (es1 ++ es2) = foldl QUBO_update (QUBO_loop es1) es2).
  { unfold QUBO_loop. apply foldl_app. }
  split; [|split; [done|]].
  - by rewrite get_foldl_QUBO_update, get_QUBO_loop.
  - by rewrite Happ, get_foldl_QUBO_update, !get_QUBO_loop.
Qed.

(** Counting. *)
Lemma first_count_cons u e es :
  first_count u (e :: es) = (if decide (e.1 = u) then 1 else 0) + first_count u es.
Proof.
  unfold first_count. rewrite filter_cons.
  destruct (decide (e.1 = u)); simpl; lia.
Qed.

Lemma second_count_cons u e es :
  second_count u (e :: es) = (if decide (e.2 = u) then 1 else 0) + second_count u es.
Proof.
  unfold second_count. rewrite filter_cons.
  destruct (decide (e.2 = u)); simpl; lia.
Qed.

Lemma occurrences_cons e0 e es :
  occurrences e0 (e :: es) = (if decide (e = e0) then 1 else 0) + occurrences e0 es.
Proof.
  unfold occurrences. rewrite filter_cons.
  destruct (decide (e = e0)); simpl; lia.
Qed.

Lemma counts_nonneg u e es :
  0 <= first_count u es /\ 0 <= second_count u es /\ 0 <= occurrences e es.
Proof. unfold first_count, second_count, occurrences. lia. Qed.

Lemma counts_elem_of e es :
  e ∈ es ->
  1 <= first_count e.1 es /\ 1 <= second_count e.2 es /\ 1 <= occurrences e es.
Proof.
  induction 1 as [e es|e e' es _ IH].
  - rewrite first_count_cons, second_count_cons, occurrences_cons.
    pose proof (counts_nonneg e.1 e es). pose proof (counts_nonneg e.2 e es).
    decide_all; try done; lia.
  - rewrite first_count_cons, second_count_cons, occurrences_cons.
    decide_all; lia.
Qed.

Lemma occurrences_self_loop_le u es :
  occurrences (u, u) es <= first_count u es
  /\ occurrences (u, u) es <= second_count u es.
Proof.
  induction es as [|[a b] es IH].
  - done.
  - rewrite first_count_cons, second_count_cons, occurrences_cons. simpl.
    decide_all; simplify_eq; lia.
Qed.

(** X3.  The loop stores no zero: an entry on the diagonal is at most -1,
    an entry off the diagonal is even and at least 2. *)
Theorem QUBO_loop_signs (es : list (Z * Z)) (a b x : Z) :
  QUBO_loop es !! (a, b) = Some x ->
  x <> 0
  /\ (a = b -> x <= -1)
  /\ (a <> b -> 2 <= x /\ Z.even x = true).
Proof.
  intros Hx.
  assert (Hget : defaultdict.get (QUBO_loop es) (a, b) = x).
  { unfold defaultdict.get. by rewrite Hx. }
  assert (Hsome : is_Some (QUBO_loop es !! (a, b))) by eauto.
  apply is_Some_QUBO_loop in Hsome as ([u v] & He & Hk). simpl in Hk.
  rewrite get_QUBO_loop, spec_table_counts in Hget.
  pose proof (counts_elem_of _ _ He) as (Hf & Hs & Ho). simpl in Hf, Hs.
  pose proof (counts_nonneg a (a, b) es) as (Hf0 & Hs0 & Ho0).
  pose proof (occurrences_self_loop_le a es) as [Hl1 Hl2].
  destruct (decide (a = b)) as [->|Hab].
  - assert (x <= -1).
    { destruct Hk as [Hk|[Hk|Hk]]; simplify_eq; lia. }
    split; [lia|]. split; [done|]. intros Hne. by destruct Hne.
  - assert (Hocc : 1 <= occurrences (a, b) es).
    { destruct Hk as [Hk|[Hk|Hk]]; simplify_eq; done. }
    split; [lia|]. split; [done|]. intros _. split; [lia|].
    subst x. rewrite Z.add_0_l, Z.even_mul. done.
Qed.

Lemma QUBO_loop_signs_witness :
  QUBO_loop [(0, 1); (1, 2); (0, 2)] !! (1, 1) = Some (-4)
  /\ (-4) <> 0
  /\ (1 = 1 -> -4 <= -1)
  /\ (1 <> 1 -> 2 <= -4 /\ Z.even (-4) = true).
Proof.
  split; [reflexivity|].
  apply (QUBO_loop_signs [(0, 1); (1, 2); (0, 2)] 1 1 (-4)). reflexivity.
Defined.

Lemma size_list_to_set_le (l : list (Z * Z)) :
  (size (list_to_set l : gset (Z * Z)) <= length l)%nat.
Proof.
  induction l as [|x l IH].
  - by rewrite list_to_set_nil, size_empty.
  - rewrite list_to_set_cons, size_union_alt, size_singleton. simpl.
    assert (size (list_to_set l ∖ {[x]} : gset (Z * Z))
            <= size (list_to_set l : gset (Z * Z)))%nat.
    { apply subseteq_size, subseteq_difference_l. done. }
    lia.
Qed.

Lemma size_QUBO_le (d : gmap (Z * Z) Z) (l : list (Z * Z)) :
  (forall k, is_Some (d !! k) -> k ∈ l) -> (size d <= length l)%nat.
Proof.
  intros Hl. rewrite <- (size_dom (D := gset (Z * Z))).
  etrans; [|apply size_list_to_set_le].
  apply subseteq_size. intros k Hk.
  apply elem_of_list_to_set, Hl. by apply elem_of_dom.
Qed.

Lemma size_QUBO_loop_le (es : list (Z * Z)) :
  (size (QUBO_loop es) <= 3 * length es)%nat.
Proof.
  etrans; [apply (size_QUBO_le _ (es ≫= written))|].
  - intros k Hk. apply is_Some_QUBO_loop in Hk as (e & He & Hk).
    apply list_elem_of_bind. exists e. split; [|done].
    unfold written. apply list_elem_of_In. simpl.
    destruct Hk as [-> | [-> | ->]]; auto.
  - induction es as [|e es IH]; [done|].
    rewrite bind_cons, length_app. simpl in *. lia.
Qed.

(** X4.  The table of the empty edge list is empty; the table of any edge
    list has at most three keys per edge; and when every end of every edge
    is one of the nodes of a list V, it has at most one key per node of V
    and one per edge. *)
Theorem QUBO_loop_size (es : list (Z * Z)) (V : list Z) :
  QUBO_loop [] = ∅
  /\ (size (QUBO_loop es) <= 3 * length es)%nat
  /\ ((forall e, e ∈ es -> e.1 ∈ V /\ e.2 ∈ V) ->
      (size (QUBO_loop es) <= length V + length es)%nat).
Proof.
  split; [done|]. split; [apply size_QUBO_loop_le|].
  intros HV.
  etrans; [apply (size_QUBO_le _ (((fun u => (u, u)) <$> V) ++ es))|].
  - intros k Hk. apply is_Some_QUBO_loop in Hk as (e & He & Hk).
    destruct (HV e He) as [H1 H2]. apply elem_of_app.
    destruct Hk as [-> | [-> | ->]].
    + left. apply list_elem_of_fmap. by exists e.1.
    + left. apply list_elem_of_fmap. by exists e.2.
    + by right.
  - by rewrite length_app, length_fmap.
Qed.

Lemma QUBO_loop_size_witness :
  Nat.le (size (QUBO_loop [(0, 1); (1, 2); (0, 2)]))
    (length [0; 1; 2] + length [(0, 1); (1, 2); (0, 2)]).
Proof.
  apply (proj2 (proj2 (QUBO_loop_size [(0, 1); (1, 2); (0, 2)] [0; 1; 2]))).
  intros e He. apply list_elem_of_In in He. simpl in He.
  destruct He as [<-|[<-|[<-|[]]]];
    split; apply list_elem_of_In; simpl; auto.
Defined.

(** Turning every edge round. *)
Lemma counts_prod_swap (u v : Z) (es : list (Z * Z)) :
  first_count u (prod_swap <$> es) = second_count u es
  /\ second_count u (prod_swap <$> es) = first_count u es
  /\ occurrences (v, u) (prod_swap <$> es) = occurrences (u, v) es.
Proof.
  induction es as [|[a b] es (IH1 & IH2 & IH3)].
  - done.
  - rewrite fmap_cons.
    rewrite !first_count_cons, !second_count_cons, !occurrences_cons.
    rewrite IH1, IH2, IH3. unfold prod_swap. simpl.
    decide_all; simplify_eq; done.
Qed.

(** X5.  The table depends on which end of an edge [Graph.edges] yields
    first.  With every edge turned round, the entry at (v, u) is what the
    entry at (u, v) was, and on the diagonal the weights -1 and -3 change
    places: the entry at (u, u) becomes minus the number of edges with
    second component u, minus three times the number with first component
    u, plus twice the number of self-loops at u. *)
Theorem QUBO_loop_orientation (es : list (Z * Z)) (u v : Z) :
  (u <> v ->
   defaultdict.get (QUBO_loop (prod_swap <$> es)) (v, u)
   = defaultdict.get (QUBO_loop es) (u, v))
  /\ defaultdict.get (QUBO_loop (prod_swap <$> es)) (u, u)
     = - second_count u es - 3 * first_count u es + 2 * occurrences (u, u) es
  /\ defaultdict.get (QUBO_loop (prod_swap <$> es)) (u, u)
     + defaultdict.get (QUBO_loop es) (u, u)
     = -4 * degree u es + 4 * occurrences (u, u) es.
Proof.
  rewrite !get_QUBO_loop, !spec_table_counts.
  destruct (counts_prod_swap u v es) as (-> & -> & ->).
  destruct (counts_prod_swap u u es) as (_ & _ & ->).
  unfold degree.
  split; [|split].
  - intros Huv. destruct (decide (v = u)), (decide (u = v)); by subst.
  - destruct (decide (u = u)); [lia | done].
  - destruct (decide (u = u)); [lia | done].
Qed.

Lemma QUBO_loop_orientation_witness :
  defaultdict.get (QUBO_loop (prod_swap <$> [(0, 1); (1, 2)])) (1, 0)
  = defaultdict.get (QUBO_loop [(0, 1); (1, 2)]) (0, 1).
Proof.
  apply (proj1 (QUBO_loop_orientation [(0, 1); (1, 2)] 0 1)). lia.
Defined.

(** X6.  On an edge list without self-loops the entry at (u, u) lies
    between -3 and -1 times the degree of u, whichever way round the edges
    are; it is zero exactly for a node of degree zero. *)
Theorem QUBO_diagonal_degree (es : list (Z * Z)) (u : Z) :
  no_self_loops es ->
  -3 * degree u es <= defaultdict.get (QUBO_loop es) (u, u) <= - degree u es
  /\ (defaultdict.get (QUBO_loop es) (u, u) = 0 <-> degree u es = 0).
Proof.
  intros Hloops. rewrite get_QUBO_loop, spec_table_counts.
  rewrite occurrences_self_loop by done.
  pose proof (counts_nonneg u (u, u) es) as (Hf & Hs & _).
  unfold degree. destruct (decide (u = u)); [lia | done].
Qed.

Lemma QUBO_diagonal_degree_witness :
  -3 * degree 1 [(0, 1); (1, 2)]
  <= defaultdict.get (QUBO_loop [(0, 1); (1, 2)]) (1, 1)
  <= - degree 1 [(0, 1); (1, 2)]
  /\ (defaultdict.get (QUBO_loop [(0, 1); (1, 2)]) (1, 1) = 0
      <-> degree 1 [(0, 1); (1, 2)] = 0).
Proof.
  apply (QUBO_diagonal_degree [(0, 1); (1, 2)] 1).
  repeat constructor; simpl; lia.
Defined.

Lemma occurrences_not_elem_of (e : Z * Z) (es : list (Z * Z)) :
  e ∉ es -> occurrences e es = 0.
Proof.
  induction es as [|e' es IH]; intros He.
  - done.
  - rewrite occurrences_cons. apply not_elem_of_cons in He as [Hne He].
    rewrite IH by done. destruct (decide (e' = e)); [by subst | done].
Qed.

Lemma occurrences_NoDup (e : Z * Z) (es : list (Z * Z)) :
  NoDup es -> e ∈ es -> occurrences e es = 1.
Proof.
  induction 1 as [|e' es Hnot _ IH]; intros He.
  - by apply elem_of_nil in He.
  - rewrite occurrences_cons. destruct (decide (e' = e)) as [Heq|Hne].
    + subst e'. rewrite occurrences_not_elem_of by done. lia.
    + apply elem_of_cons in He as [Heq|He]; [by subst|].
      rewrite IH by done. lia.
Qed.

(** X14.  When [Graph.edges] yields every edge once and no self-loop, as
    for a simple graph, every edge (u, v) has the entry 2 at its own key,
    and its reverse (v, u), unless it too is yielded, has no key. *)
Theorem QUBO_simple_graph (es : list (Z * Z)) (u v : Z) :
  NoDup es -> no_self_loops es -> (u, v) ∈ es ->
  QUBO_loop es !! (u, v) = Some 2
  /\ ((v, u) ∉ es -> QUBO_loop es !! (v, u) = None).
Proof.
  intros Hdup Hloops He.
  assert (Huv : u <> v).
  { unfold no_self_loops in Hloops. rewrite Forall_forall in Hloops.
    by apply (Hloops (u, v)). }
  split.
  - assert (Hsome : is_Some (QUBO_loop es !! (u, v))).
    { apply is_Some_QUBO_loop. exists (u, v). auto. }
    destruct Hsome as [x Hx]. rewrite Hx. f_equal.
    assert (Hget : defaultdict.get (QUBO_loop es) (u, v) = x).
    { unfold defaultdict.get. by rewrite Hx. }
    rewrite get_QUBO_loop, spec_table_counts, occurrences_NoDup in Hget by done.
    destruct (decide (u = v)); [done | lia].
  - intros Hnot. apply eq_None_not_Some. rewrite is_Some_QUBO_loop.
    intros ([a b] & He' & [H|[H|H]]); simpl in H; simplify_eq; done.
Qed.

Lemma QUBO_simple_graph_witness :
  QUBO_loop [(0, 1); (1, 2); (0, 2)] !! (1, 2) = Some 2
  /\ ((2, 1) ∉ [(0, 1); (1, 2); (0, 2)] ->
      QUBO_loop [(0, 1); (1, 2); (0, 2)] !! (2, 1) = None).
Proof.
  apply (QUBO_simple_graph [(0, 1); (1, 2); (0, 2)] 1 2).
  - apply NoDup_ListNoDup. repeat constructor; simpl; intuition congruence.
  - repeat constructor; simpl; lia.
  - apply list_elem_of_In. simpl. auto.
Defined.

(** * Further properties of the size of the graph *)

Lemma edges_exact_upto : forallb edges_exact (node_counts (Z.to_nat 10001)) = true.
Proof. by vm_compute. Qed.

(** X7.  For every node count from 0 to 10000 the float computation of
    [edges] is exact: it yields the integer quotient of nodes * (nodes-1)
    by 5, which differs from the rational 0.4 * nodes * (nodes-1) / 2 by at
    most 0.4, and which is never negative nor above the nodes * (nodes-1) / 2
    edges of the complete graph.  The notebook's [edges] is the case
    nodes = 240. *)
Theorem edges_of_exact (n : Z) :
  0 <= n <= 10000 ->
  edges_of n = n * (n - 1) / 5
  /\ 0 <= n * (n - 1) - 5 * edges_of n <= 2
  /\ 0 <= edges_of n <= n * (n - 1) / 2
  /\ edges = edges_of nodes.
Proof.
  intros Hn.
  assert (Hexact : edges_exact n = true).
  { pose proof edges_exact_upto as Hall.
    rewrite forallb_forall in Hall. apply Hall.
    apply list_elem_of_In, list_elem_of_fmap. exists (Z.to_nat n).
    split; [lia|]. apply list_elem_of_In, in_seq. lia. }
  unfold edges_exact in Hexact.
  apply andb_true_iff in Hexact as [Hexact Hmod].
  apply andb_true_iff in Hexact as [_ Hdiv].
  apply Z.eqb_eq in Hdiv. apply Z.leb_le in Hmod.
  rewrite Hdiv.
  pose proof (Z.div_mod (n * (n - 1)) 5 ltac:(lia)) as Hdm.
  pose proof (Z.mod_pos_bound (n * (n - 1)) 5 ltac:(lia)) as Hpos.
  assert (0 <= n * (n - 1)) by nia.
  split; [done|]. split; [lia|]. split; [|done].
  split.
  - apply Z.div_pos; lia.
  - apply Z.div_le_lower_bound; [lia|].
    pose proof (Z.div_mod (n * (n - 1)) 5 ltac:(lia)). lia.
Qed.

Lemma edges_of_exact_witness :
  edges_of 240 = 240 * (240 - 1) / 5
  /\ 0 <= 240 * (240 - 1) - 5 * edges_of 240 <= 2
  /\ 0 <= edges_of 240 <= 240 * (240 - 1) / 2
  /\ edges = edges_of nodes.
Proof. apply (edges_of_exact 240). lia. Defined.

(** X8.  The rounding used for [round]: of a non-negative m * 2^e it
    returns m * 2^e itself when e >= 0, and otherwise an integer at most
    one half away from m / 2^(-e), the even one when there are two. *)
Theorem round_half_even_nearest (m e : Z) :
  0 <= m ->
  (0 <= e -> pyfloat.round_half_even m e = m * 2 ^ e)
  /\ (e < 0 ->
      2 * Z.abs (pyfloat.round_half_even m e * 2 ^ (- e) - m) <= 2 ^ (- e)
      /\ (2 * Z.abs (pyfloat.round_half_even m e * 2 ^ (- e) - m) = 2 ^ (- e) ->
          Z.even (pyfloat.round_half_even m e) = true)).
Proof.
  intros Hm. unfold pyfloat.round_half_even. split.
  - intros He. by destruct (Z.leb_spec 0 e); [|lia].
  - intros He. destruct (Z.leb_spec 0 e) as [?|_]; [lia|].
    set (d := 2 ^ (- e)).
    assert (Hd : 0 < d) by (apply Z.pow_pos_nonneg; lia).
    pose proof (Z.div_mod m d ltac:(lia)) as Hdm.
    pose proof (Z.mod_pos_bound m d Hd) as Hr.
    set (q := m / d) in *. set (r := m mod d) in *.
    destruct (Z.ltb_spec (2 * r) d) as [Hlt|Hge].
    + split; [nia|]. intros Heq. exfalso. nia.
    + destruct (Z.ltb_spec d (2 * r)) as [Hgt|Hle].
      * split; [nia|]. intros Heq. exfalso. nia.
      * destruct (Z.even q) eqn:Hq.
        -- split; [nia | done].
        -- split; [nia|]. intros _.
           replace (q + 1) with (Z.succ q) by lia.
           by rewrite Z.even_succ, <- Z.negb_even, Hq.
Qed.

Lemma round_half_even_nearest_witness :
  2 * Z.abs (pyfloat.round_half_even 5 (-1) * 2 ^ (- (-1)) - 5) <= 2 ^ (- (-1))
  /\ (2 * Z.abs (pyfloat.round_half_even 5 (-1) * 2 ^ (- (-1)) - 5) = 2 ^ (- (-1)) ->
      Z.even (pyfloat.round_half_even 5 (-1)) = true).
Proof.
  apply (proj2 (round_half_even_nearest 5 (-1) ltac:(lia))). lia.
Defined.

(** * Further properties of the runs *)

(** X9.  A notebook that runs to its end has made eleven calls, each one
    taking what the earlier ones returned: the graph of the generator gives
    the edges of the loop, the table of the loop is the problem sampled,
    the sampler built from the S3 folder and the device name gives the
    target of the embedding search and is the sampler wrapped, and the
    response of the solver is what is printed. *)
Theorem notebook_trace {T : externals} (env : environment T) (w : world T) :
  notebook_outcome env w = inr tt ->
  exists Graph es system G G_edges edgelist embedding solver qbsolv response,
    notebook_log env w =
      [ Event (nx_gnm_random_graph nodes edges seed) (inr Graph);
        Event (Graph_edges Graph) (inr es);
        Event (BraketDWaveSampler s3_folder Advantage_system1) (inr system);
        Event (nx_complete_graph solver_limit) (inr G);
        Event (Graph_edges G) (inr G_edges);
        Event (system_edgelist system) (inr edgelist);
        Event (minorminer_find_embedding G_edges edgelist) (inr embedding);
        Event (FixedEmbeddingComposite system embedding) (inr solver);
        Event QBSolv (inr qbsolv);
        Event (sample_qubo qbsolv (QUBO_loop es) solver
                 num_repeats solver_limit num_reads) (inr response);
        Event (print response) (inr tt) ].
Proof.
  run_notebook env; intros Hout; try discriminate Hout.
  match goal with x : unit |- _ => destruct x end.
  repeat eexists.
Qed.

Lemma notebook_trace_witness :
  exists Graph es system G G_edges edgelist embedding solver qbsolv response,
    notebook_log (Demo.env None) 0%nat =
      [ Event (nx_gnm_random_graph nodes edges seed) (inr Graph);
        Event (Graph_edges Graph) (inr es);
        Event (BraketDWaveSampler s3_folder Advantage_system1) (inr system);
        Event (nx_complete_graph solver_limit) (inr G);
        Event (Graph_edges G) (inr G_edges);
        Event (system_edgelist system) (inr edgelist);
        Event (minorminer_find_embedding G_edges edgelist) (inr embedding);
        Event (FixedEmbeddingComposite system embedding) (inr solver);
        Event QBSolv (inr qbsolv);
        Event (sample_qubo qbsolv (QUBO_loop es) solver
                 num_repeats solver_limit num_reads) (inr response);
        Event (print response) (inr tt) ].
Proof. apply (notebook_trace (Demo.env None) 0%nat). reflexivity. Defined.

(** X10.  In every run the calls made are an initial segment of the
    eleven calls of the notebook, in their order, so there are at most
    eleven; the notebook runs to its end exactly when all eleven were made
    and none raised. *)
Theorem notebook_calls_prefix {T : externals} (env : environment T) (w : world T) :
  (event_name <$> notebook_log env w) `prefix_of` notebook_calls
  /\ (length (notebook_log env w) <= 11)%nat
  /\ (notebook_outcome env w = inr tt
      <-> length (notebook_log env w) = 11%nat
          /\ omap raised (notebook_log env w) = []).
Proof.
  run_notebook env;
    (split; [by eexists|]); (split; [lia|]);
    (split; [intros Hout; try discriminate Hout; done|]);
    intros [Hlen Hraised]; try discriminate Hlen; try discriminate Hraised.
  by match goal with x : unit |- _ => destruct x end.
Qed.

(** X11.  The problem handed to [sample_qubo] is the table the loop built
    from the edges of the graph that [gnm_random_graph(nodes, edges, seed)]
    returned; its coefficients sum to -2 times the number of those edges,
    and it has at most three keys per edge. *)
Theorem sampled_problem_is_loop_table {T : externals}
    (env : environment T) (w : world T) :
  Forall (fun '(Q, _) =>
            exists Graph es,
              (nodes, edges, seed, inr Graph)
                ∈ omap gnm_random_graph_call (notebook_log env w)
              /\ (Graph, inr es) ∈ omap Graph_edges_call (notebook_log env w)
              /\ Q = QUBO_loop es
              /\ defaultdict.sum_values Q = -2 * Z.of_nat (length es)
              /\ (size Q <= 3 * length es)%nat)
    (omap sample_qubo_problem (notebook_log env w)).
Proof.
  run_notebook env; repeat constructor.
  all: do 2 eexists; split; [in_list|]; split; [in_list|]; split; [done|].
  all: split; [apply sum_values_QUBO_loop | apply size_QUBO_loop_le].
Qed.

(** X12.  The sampler wrapped by [FixedEmbeddingComposite] is the one
    built from the S3 folder of cell 2 and the Advantage device name, and
    the embedding wrapped with it was searched against the edge list of
    that same sampler; the notebook builds at most one sampler. *)
Theorem embedding_matches_sampler {T : externals}
    (env : environment T) (w : world T) :
  (length (omap BraketDWaveSampler_call (notebook_log env w)) <= 1)%nat
  /\ Forall (fun '(system, embedding, _) =>
               exists source target,
                 (my_bucket, my_prefix, Advantage_system1, inr system)
                   ∈ omap BraketDWaveSampler_call (notebook_log env w)
                 /\ (system, inr target)
                   ∈ omap system_edgelist_call (notebook_log env w)
                 /\ (source, target, inr embedding)
                   ∈ omap find_embedding_call (notebook_log env w))
       (omap FixedEmbeddingComposite_call (notebook_log env w)).
Proof.
  run_notebook env; (split; [lia|]); repeat constructor.
  all: do 2 eexists; split; [in_list|]; split; in_list.
Qed.

(** X13.  The notebook prints at most once, and only a response that
    [sample_qubo] returned; when [sample_qubo] raises, nothing is
    printed. *)
Theorem print_after_sample_qubo {T : externals}
    (env : environment T) (w : world T) :
  (length (omap print_call (notebook_log env w)) <= 1)%nat
  /\ Forall (fun response =>
               inr response ∈ omap sample_qubo_response (notebook_log env w))
       (omap print_call (notebook_log env w))
  /\ (forall e, inl e ∈ omap sample_qubo_response (notebook_log env w) ->
       omap print_call (notebook_log env w) = []).
Proof.
  run_notebook env; (split; [lia|]); (split; [repeat constructor|]).
  all: try in_list.
  all: intros e' He'; try done.
  all: apply list_elem_of_In in He'; simpl in He'.
  all: by destruct He' as [He'|[]].
Qed.

Lemma print_after_sample_qubo_witness :
  omap print_call (notebook_log (Demo.env (Some 9%nat)) 0%nat) = [].
Proof.
  apply (proj2 (proj2 (print_after_sample_qubo (Demo.env (Some 9%nat)) 0%nat))
           "device unavailable"%string).
  apply list_elem_of_In. simpl. left. reflexivity.
Defined.
